(** * A shallow embedding of the Geneva clock stepper driver and clock mechanics

    Models [GenericClockBoard] (phase sequencing, the [Step] primitive and its
    delay profile) and [GenevaClockMechanics] (time-to-position mapping in
    [UpdateClock] and the three-phase [Home] procedure).

    Integers are [Z].  [uint32_t] results are written with their wrap-around
    ([u32]); conversions of an unsigned value into an [int32_t] use [to_i32].
    C's [/] and [%] on signed operands truncate toward zero: [Z.quot] and
    [Z.rem].  Hardware effects are explicit state: the GPIO output register,
    a log of [delayMicroseconds] arguments, and the (ghost) position of the
    motor shaft measured in steps, positive in the commanded clockwise sense.
    The home input is read as a function of that position. *)

From Stdlib Require Import ZArith Lia List Bool.
Import ListNotations.
Open Scope Z_scope.

Definition u32 (x : Z) : Z := x mod 2 ^ 32.

Definition to_i32 (x : Z) : Z :=
  let y := u32 x in if y <? 2 ^ 31 then y else y - 2 ^ 32.

(** ** GenericClockBoard *)

Inductive StepperSpeed_t := StepSlow | StepAuto | StepFast.

Definition PHASE_1_PIN : Z := 19.
Definition PHASE_2_PIN : Z := 16.
Definition PHASE_3_PIN : Z := 17.
Definition PHASE_4_PIN : Z := 21.
Definition NUM_STEPPER_PINS : Z := 4.

Definition StepperPins : list Z :=
  [PHASE_1_PIN; PHASE_2_PIN; PHASE_3_PIN; PHASE_4_PIN].
Definition StepperPinsReversed : list Z :=
  [PHASE_4_PIN; PHASE_3_PIN; PHASE_2_PIN; PHASE_1_PIN].

Definition STEP_CW : Z := 1.
Definition STEP_CCW : Z := -1.

(** The members fixed by the constructor. *)
Record board_cfg := {
  m_pStepperPins : list Z;
  m_NumStepperPhases : Z;
  m_StepperRapidDelayUs : Z;
  m_StepperClearMask : Z;
  m_StepperSequence : list Z;
  m_InvertHome : bool
}.

(** The members [Step] mutates, with the hardware it drives. *)
Record board := {
  m_CurrentStepperPhase : Z;
  gpio_out : Z;          (* GPIO.out, the output register of GPIO 0..31 *)
  motor_pos : Z;         (* shaft position in steps (ghost) *)
  delay_log : list Z     (* delayMicroseconds arguments, newest first *)
}.

(** [#define PIN_BP(p) (1UL << m_pStepperPins[p])] *)
Definition PIN_BP (pins : list Z) (p : nat) : Z := Z.shiftl 1 (nth p pins 0).

(** The loop of the constructor that fills [m_StepperSequence]. *)
Definition init_sequence (pins : list Z) (phases : Z) : list Z :=
  flat_map
    (fun i =>
       if phases =? 4 then [PIN_BP pins i]
       else [PIN_BP pins i;
             Z.lor (PIN_BP pins i) (PIN_BP pins ((i + 1) mod 4)%nat)])
    (seq 0 4).

Definition US_PER_SEC : Z := 1000000.

(** [GenericClockBoard::GenericClockBoard]; [m_CurrentStepperPhase] starts at 0
    ([board_init]). *)
Definition make_board (rapidSecondsPerRev fullStepsPerRev : Z)
    (stepperPinsReversed stepperHalfStepping homeNormallyOpen : bool) : board_cfg :=
  let pins := if stepperPinsReversed then StepperPinsReversed else StepperPins in
  let phases := if stepperHalfStepping then 8 else 4 in
  let stepsPerRev := u32 (fullStepsPerRev * (if stepperHalfStepping then 2 else 1)) in
  {| m_pStepperPins := pins;
     m_NumStepperPhases := phases;
     m_StepperRapidDelayUs := u32 (US_PER_SEC * rapidSecondsPerRev) / stepsPerRev;
     m_StepperClearMask :=
       Z.lor (Z.lor (Z.lor (PIN_BP pins 0) (PIN_BP pins 1)) (PIN_BP pins 2))
             (PIN_BP pins 3);
     m_StepperSequence := init_sequence pins phases;
     m_InvertHome := homeNormallyOpen |}.

Definition board_init (gpio : Z) : board :=
  {| m_CurrentStepperPhase := 0; gpio_out := gpio; motor_pos := 0; delay_log := [] |}.

(** [GPIO.out_w1ts = m] sets the bits of [m]; [GPIO.out_w1tc = m] clears them. *)
Definition out_w1ts (m : Z) (b : board) : board :=
  {| m_CurrentStepperPhase := m_CurrentStepperPhase b;
     gpio_out := Z.lor (gpio_out b) m;
     motor_pos := motor_pos b; delay_log := delay_log b |}.

Definition out_w1tc (m : Z) (b : board) : board :=
  {| m_CurrentStepperPhase := m_CurrentStepperPhase b;
     gpio_out := Z.land (gpio_out b) (Z.lnot m);
     motor_pos := motor_pos b; delay_log := delay_log b |}.

Definition delayMicroseconds (us : Z) (b : board) : board :=
  {| m_CurrentStepperPhase := m_CurrentStepperPhase b;
     gpio_out := gpio_out b;
     motor_pos := motor_pos b; delay_log := us :: delay_log b |}.

Definition delay_if (cond : bool) (us : Z) (b : board) : board :=
  if cond then delayMicroseconds us b else b.

(** Phase update of one iteration: [m_CurrentStepperPhase] is advanced by
    [delta]; the [int] sum is converted to [unsigned] for the [%].  The shaft
    turns one step in direction [dir]. *)
Definition advance_phase (c : board_cfg) (delta dir : Z) (b : board) : board :=
  {| m_CurrentStepperPhase :=
       u32 (m_CurrentStepperPhase b + delta) mod m_NumStepperPhases c;
     gpio_out := gpio_out b;
     motor_pos := motor_pos b + dir; delay_log := delay_log b |}.

(** The body of the [for (j = 0; j < absSteps; j++)] loop of [Step]. *)
Definition step_body (c : board_cfg) (delta dir : Z) (speed : StepperSpeed_t)
    (absSteps j : Z) (b : board) : board :=
  let rapid := m_StepperRapidDelayUs c in
  let b := advance_phase c delta dir b in
  let b := out_w1ts (nth (Z.to_nat (m_CurrentStepperPhase b)) (m_StepperSequence c) 0) b in
  let b := delayMicroseconds rapid b in
  let b :=
    match speed with
    | StepSlow => delayMicroseconds (u32 (rapid * 4)) b
    | StepAuto =>
        let b := delay_if (j <? 20) rapid b in
        let b := delay_if (j <? 10) rapid b in
        let b := delay_if (j <? 5) rapid b in
        let b := delay_if (absSteps - j <? 20) rapid b in
        let b := delay_if (absSteps - j <? 10) rapid b in
        delay_if (absSteps - j <? 5) rapid b
    | StepFast => b
    end in
  out_w1tc (m_StepperClearMask c) b.

(** The loop itself; [fuel] bounds the iterations, [j < absSteps] ends it. *)
Fixpoint step_loop (c : board_cfg) (delta dir : Z) (speed : StepperSpeed_t)
    (absSteps : Z) (fuel : nat) (j : Z) (b : board) : board :=
  match fuel with
  | O => b
  | S f =>
      if j <? absSteps
      then step_loop c delta dir speed absSteps f (j + 1)
             (step_body c delta dir speed absSteps j b)
      else b
  end.

(** [int32_t delta = (steps > 0) ? 1 : (m_NumStepperPhases - 1);] *)
Definition phase_delta (c : board_cfg) (steps : Z) : Z :=
  if 0 <? steps then 1 else m_NumStepperPhases c - 1.

(** [GenericClockBoard::Step].  [abs] is the mathematical absolute value
    ([abs(INT32_MIN)] is undefined in C). *)
Definition Step (c : board_cfg) (steps : Z) (speed : StepperSpeed_t) (b : board) : board :=
  if steps =? 0 then out_w1tc (m_StepperClearMask c) b
  else
    let delta := phase_delta c steps in
    let absSteps := Z.abs steps in
    step_loop c delta (Z.sgn steps) speed absSteps (Z.to_nat absSteps) 0 b.

(** [IsHome()]: the level of the home input, read at the current shaft
    position, XOR [m_InvertHome]. *)
Definition IsHome (c : board_cfg) (home_high : Z -> bool) (b : board) : bool :=
  xorb (home_high (motor_pos b)) (m_InvertHome c).

(** The value [IsHome()] returns when the shaft is at position [p]. *)
Definition home_active (c : board_cfg) (home_high : Z -> bool) (p : Z) : bool :=
  xorb (home_high p) (m_InvertHome c).

(** ** GenevaClockMechanics *)

Inductive StatusCode_t :=
  StatusSuccess | StatusHomePhase1Error | StatusHomePhase2Error | StatusHomePhase3Error.

Definition MINUTES_PER_HOUR : Z := 60.
Definition HOURS_PER_REV : Z := 3.
Definition HOURS_PER_CYCLE : Z := 12.
Definition MINUTES_PER_CYCLE : Z := MINUTES_PER_HOUR * HOURS_PER_CYCLE.
Definition GEAR_RATIO : Z := 32 / 8.

(** The members fixed by the constructor. *)
Record mech_cfg := {
  m_StepsPerHour : Z;     (* uint32_t *)
  m_StepsPerCycle : Z     (* int32_t *)
}.

(** The mechanics object: the board and the position state.  [step_calls]
    records the arguments of each [Step] call (ghost), newest first. *)
Record mech := {
  board_st : board;
  m_LastStepperPos : Z;
  m_LastMinutes : Z;
  step_calls : list (Z * StepperSpeed_t)
}.

(** The two fields of [struct tm] that [UpdateClock] reads. *)
Record tm := { tm_hour : Z; tm_min : Z }.

(** [GenevaClockMechanics::GenevaClockMechanics]. *)
Definition make_mechanics (rapidSecondsPerRev fullStepsPerRev : Z)
    (stepperPinsReversed stepperHalfStepping homeNormallyOpen : bool)
    : board_cfg * mech_cfg :=
  let stepsPerRev := u32 (fullStepsPerRev * (if stepperHalfStepping then 2 else 1)) in
  (make_board rapidSecondsPerRev fullStepsPerRev stepperPinsReversed
     stepperHalfStepping homeNormallyOpen,
   {| m_StepsPerHour := u32 (stepsPerRev * GEAR_RATIO) / HOURS_PER_REV;
      m_StepsPerCycle :=
        to_i32 (u32 (u32 (stepsPerRev * GEAR_RATIO) * (HOURS_PER_CYCLE / HOURS_PER_REV))) |}).

Definition mech_init (b : board) : mech :=
  {| board_st := b; m_LastStepperPos := 0; m_LastMinutes := 0; step_calls := [] |}.

(** A call of [Step] from the mechanics layer. *)
Definition mStep (c : board_cfg) (steps : Z) (speed : StepperSpeed_t) (m : mech) : mech :=
  {| board_st := Step c steps speed (board_st m);
     m_LastStepperPos := m_LastStepperPos m;
     m_LastMinutes := m_LastMinutes m;
     step_calls := (steps, speed) :: step_calls m |}.

Definition set_position (pos minutes : Z) (m : mech) : mech :=
  {| board_st := board_st m; m_LastStepperPos := pos; m_LastMinutes := minutes;
     step_calls := step_calls m |}.

(** [newTimeInMinutes]: [tm_hour % HOURS_PER_CYCLE] and the rest of the
    expression are [unsigned]; the result is stored in an [int32_t]. *)
Definition time_in_minutes (t : tm) : Z :=
  to_i32 (u32 (u32 ((u32 (tm_hour t) mod HOURS_PER_CYCLE) * MINUTES_PER_HOUR) + u32 (tm_min t))).

(** [newMotorPos] ([int32_t] arithmetic). *)
Definition motor_target (mc : mech_cfg) (newTimeInMinutes : Z) : Z :=
  Z.quot (newTimeInMinutes * m_StepsPerCycle mc) MINUTES_PER_CYCLE.

(** The shortest-path correction of [deltaSteps]. *)
Definition normalize_delta (stepsPerCycle deltaSteps : Z) : Z :=
  if Z.quot stepsPerCycle 2 <? deltaSteps then deltaSteps - stepsPerCycle
  else if deltaSteps <? Z.quot (- stepsPerCycle) 2 then deltaSteps + stepsPerCycle
  else deltaSteps.

(** [GenevaClockMechanics::UpdateClock]. *)
Definition UpdateClock (bc : board_cfg) (mc : mech_cfg) (t : tm) (m : mech) : mech :=
  let newTimeInMinutes := time_in_minutes t in
  if negb (newTimeInMinutes =? m_LastMinutes m) then
    let newMotorPos := motor_target mc newTimeInMinutes in
    let deltaSteps :=
      normalize_delta (m_StepsPerCycle mc) (newMotorPos - m_LastStepperPos m) in
    let m := mStep bc deltaSteps StepAuto m in
    set_position (Z.rem (m_LastStepperPos m + deltaSteps) (m_StepsPerCycle mc))
      newTimeInMinutes m
  else m.

(** A homing loop [for (i = 0; (IsHome() == keep) && (i < limit); i++)
    Step(dir, speed);] returning the final [i]; [limit] and [i] are
    [uint32_t]. *)
Fixpoint home_loop (bc : board_cfg) (home_high : Z -> bool) (keep : bool) (dir : Z)
    (speed : StepperSpeed_t) (limit : Z) (fuel : nat) (i : Z) (m : mech) : Z * mech :=
  match fuel with
  | O => (i, m)
  | S f =>
      if Bool.eqb (IsHome bc home_high (board_st m)) keep && (i <? limit)
      then home_loop bc home_high keep dir speed limit f (i + 1) (mStep bc dir speed m)
      else (i, m)
  end.

(** [const uint32_t MAX_STEPS = m_StepsPerCycle + m_StepsPerHour;] *)
Definition home_budget (mc : mech_cfg) : Z :=
  u32 (u32 (m_StepsPerCycle mc) + m_StepsPerHour mc).

(** [GenevaClockMechanics::Home]. *)
Definition Home (bc : board_cfg) (mc : mech_cfg) (home_high : Z -> bool) (m : mech)
    : StatusCode_t * mech :=
  let MAX_STEPS := home_budget mc in
  let H := m_StepsPerHour mc in
  let '(i, m) := home_loop bc home_high false STEP_CW StepFast MAX_STEPS
                   (Z.to_nat MAX_STEPS) 0 m in
  if MAX_STEPS <=? i then (StatusHomePhase1Error, m) else
  let '(i, m) := home_loop bc home_high true STEP_CCW StepFast H (Z.to_nat H) 0 m in
  if H <=? i then (StatusHomePhase2Error, m) else
  let '(i, m) := home_loop bc home_high false STEP_CW StepSlow H (Z.to_nat H) 0 m in
  if H <=? i then (StatusHomePhase3Error, m) else
  (StatusSuccess, set_position 0 0 m).

(** The configuration of the example: a 28BYJ-48 (2048 full steps per
    revolution) driven in half steps. *)
Definition geneva_default : board_cfg * mech_cfg := make_mechanics 8 2048 false true true.

Definition homed_state : mech := mech_init (board_init 0).

Definition at_time (h mi : Z) : tm := {| tm_hour := h; tm_min := mi |}.

Definition run_updates (bc : board_cfg) (mc : mech_cfg) (ts : list tm) (m : mech) : mech :=
  fold_left (fun m t => UpdateClock bc mc t m) ts m.

(** A home switch whose contact is made while the shaft is within [w] steps
    after [lo] on the ring of [cyc] steps: normally open, wired to an input
    with pull-up, so the input reads low while it is made. *)
Definition switch_window (lo w cyc : Z) (p : Z) : bool :=
  negb ((lo <=? p mod cyc) && (p mod cyc <? lo + w)).

Definition board_at (pos : Z) : board :=
  {| m_CurrentStepperPhase := 0; gpio_out := 0; motor_pos := pos; delay_log := [] |}.



(** A sequence of [Step] calls, in order. *)
Definition run_steps (c : board_cfg) (calls : list (Z * StepperSpeed_t)) (b : board) : board :=
  fold_left (fun b call => Step c (fst call) (snd call) b) calls b.

(** [x] has exactly one bit set. *)
Definition is_single_bit (x : Z) : bool := (0 <? x) && (Z.land x (x - 1) =? 0).

(** [k] is one of the stepper pins of [c]. *)
Definition is_stepper_pin (c : board_cfg) (k : Z) : bool :=
  existsb (Z.eqb k) (m_pStepperPins c).

(** ** Lemmas on the driver *)

Section Driver.

Variable c : board_cfg.

Lemma step_loop_as_fold (delta dir : Z) (speed : StepperSpeed_t) (n : Z) :
  forall fuel j b, 0 <= j -> j + Z.of_nat fuel = n ->
  step_loop c delta dir speed n fuel j b =
  fold_left (fun b k => step_body c delta dir speed n (Z.of_nat k) b)
    (seq (Z.to_nat j) fuel) b.
Proof.
  induction fuel as [|f IH]; intros j b Hj Hn; [reflexivity|].
  cbn [step_loop seq fold_left].
  replace (j <? n) with true by (symmetry; apply Z.ltb_lt; lia).
  rewrite Z2Nat.id by lia.
  rewrite IH by lia.
  replace (Z.to_nat (j + 1)) with (S (Z.to_nat j)) by lia.
  reflexivity.
Qed.

Lemma Step_as_fold (steps : Z) (speed : StepperSpeed_t) (b : board) :
  steps <> 0 ->
  Step c steps speed b =
  fold_left
    (fun b k => step_body c (phase_delta c steps) (Z.sgn steps) speed (Z.abs steps)
                  (Z.of_nat k) b)
    (seq 0 (Z.to_nat (Z.abs steps))) b.
Proof.
  intros Hs. unfold Step.
  replace (steps =? 0) with false by (symmetry; apply Z.eqb_neq; exact Hs).
  rewrite step_loop_as_fold by lia. reflexivity.
Qed.

Lemma delay_if_phase cond us b :
  m_CurrentStepperPhase (delay_if cond us b) = m_CurrentStepperPhase b.
Proof. destruct cond; reflexivity. Qed.

Lemma delay_if_pos cond us b : motor_pos (delay_if cond us b) = motor_pos b.
Proof. destruct cond; reflexivity. Qed.

Lemma step_body_phase delta dir speed n j b :
  m_CurrentStepperPhase (step_body c delta dir speed n j b) =
  u32 (m_CurrentStepperPhase b + delta) mod m_NumStepperPhases c.
Proof.
  unfold step_body; destruct speed; cbn [m_CurrentStepperPhase out_w1tc];
    rewrite ?delay_if_phase; reflexivity.
Qed.

Lemma step_body_pos delta dir speed n j b :
  motor_pos (step_body c delta dir speed n j b) = motor_pos b + dir.
Proof.
  unfold step_body; destruct speed; cbn [motor_pos out_w1tc];
    rewrite ?delay_if_pos; reflexivity.
Qed.


Lemma fold_body_pos delta dir speed n (l : list nat) :
  forall b,
  motor_pos (fold_left (fun b k => step_body c delta dir speed n (Z.of_nat k) b) l b) =
  motor_pos b + dir * Z.of_nat (length l).
Proof.
  induction l as [|x l IH]; intros b; cbn [fold_left length].
  - lia.
  - rewrite IH, step_body_pos. lia.
Qed.

Lemma fold_body_phase delta dir speed n (l : list nat) :
  forall b,
  m_CurrentStepperPhase
    (fold_left (fun b k => step_body c delta dir speed n (Z.of_nat k) b) l b) =
  Nat.iter (length l) (fun ph => u32 (ph + delta) mod m_NumStepperPhases c)
    (m_CurrentStepperPhase b).
Proof.
  induction l as [|x l IH]; intros b; cbn [fold_left length]; [reflexivity|].
  rewrite IH, step_body_phase, Nat.iter_succ_r. reflexivity.
Qed.


Lemma Step_pos steps speed b : motor_pos (Step c steps speed b) = motor_pos b + steps.
Proof.
  destruct (Z.eq_dec steps 0) as [->|Hs].
  - unfold Step. simpl. lia.
  - rewrite Step_as_fold by exact Hs. rewrite fold_body_pos, length_seq.
    rewrite Z2Nat.id by lia.
    destruct (Z.sgn_spec steps) as [[? ->]|[[? ->]|[? ->]]]; lia.
Qed.

End Driver.

Lemma make_board_phases rsp fsp rev half inv :
  m_NumStepperPhases (make_board rsp fsp rev half inv) = 4 \/
  m_NumStepperPhases (make_board rsp fsp rev half inv) = 8.
Proof. destruct half; [right|left]; reflexivity. Qed.

Section Phases.

Variable c : board_cfg.
Hypothesis Hphases : m_NumStepperPhases c = 4 \/ m_NumStepperPhases c = 8.

Lemma u32_mod_phases x : u32 x mod m_NumStepperPhases c = x mod m_NumStepperPhases c.
Proof.
  unfold u32. apply Z.mod_mod_divide.
  destruct Hphases as [-> | ->]; [exists (2 ^ 30) | exists (2 ^ 29)]; reflexivity.
Qed.

Lemma iter_phase (k : nat) (d x : Z) :
  0 <= x < m_NumStepperPhases c ->
  Nat.iter k (fun ph => u32 (ph + d) mod m_NumStepperPhases c) x =
  (x + Z.of_nat k * d) mod m_NumStepperPhases c.
Proof.
  intros Hx. induction k as [|k IH].
  - cbn [Z.of_nat]. rewrite Z.mul_0_l, Z.add_0_r, Z.mod_small by lia. reflexivity.
  - rewrite Nat.iter_succ, IH, u32_mod_phases, Zplus_mod_idemp_l.
    f_equal. lia.
Qed.

Lemma Step_phase steps speed b :
  0 <= m_CurrentStepperPhase b < m_NumStepperPhases c ->
  m_CurrentStepperPhase (Step c steps speed b) =
  (m_CurrentStepperPhase b + Z.abs steps * phase_delta c steps) mod m_NumStepperPhases c.
Proof.
  intros Hb. destruct (Z.eq_dec steps 0) as [->|Hs].
  - cbn. rewrite Z.add_0_r, Z.mod_small; lia.
  - rewrite Step_as_fold by exact Hs.
    rewrite fold_body_phase, length_seq, iter_phase by exact Hb.
    rewrite Z2Nat.id by lia. reflexivity.
Qed.

End Phases.

Lemma PIN_BP_testbit pins i k :
  0 <= nth i pins 0 -> Z.testbit (PIN_BP pins i) k = (nth i pins 0 =? k).
Proof. intros H. unfold PIN_BP. rewrite Z.shiftl_1_l. apply Z.pow2_bits_eqb. exact H. Qed.

(** ** Claims on the driver *)


(** C6: for [steps <> 0], [Step] runs its loop body exactly [|steps|] times,
    and each run advances the phase index by [1] (for [steps > 0]) or by
    [phases - 1] (for [steps < 0]) modulo the phase count; the shaft moves by
    [steps]. *)
Theorem Step_direction_and_count rsp fsp rev half inv (steps : Z)
    (speed : StepperSpeed_t) (b : board) :
  steps <> 0 ->
  Step (make_board rsp fsp rev half inv) steps speed b =
  fold_left
    (fun b k => step_body (make_board rsp fsp rev half inv)
                  (phase_delta (make_board rsp fsp rev half inv) steps)
                  (Z.sgn steps) speed (Z.abs steps) (Z.of_nat k) b)
    (seq 0 (Z.to_nat (Z.abs steps))) b
  /\ phase_delta (make_board rsp fsp rev half inv) steps =
     (if 0 <? steps then 1 else (if half then 8 else 4) - 1)
  /\ (forall n j b',
        m_CurrentStepperPhase
          (step_body (make_board rsp fsp rev half inv)
             (phase_delta (make_board rsp fsp rev half inv) steps)
             (Z.sgn steps) speed n j b') =
        (m_CurrentStepperPhase b' + phase_delta (make_board rsp fsp rev half inv) steps)
          mod (if half then 8 else 4))
  /\ motor_pos (Step (make_board rsp fsp rev half inv) steps speed b) = motor_pos b + steps.
Proof.
  intros Hs. split; [|split; [|split]].
  - apply Step_as_fold; exact Hs.
  - reflexivity.
  - intros n j b'. rewrite step_body_phase, u32_mod_phases
      by apply make_board_phases. reflexivity.
  - apply Step_pos.
Qed.

(** C7: for both phase counts and every speed, [Step(0, speed)] clears the four
    phase output bits, leaves every other output bit, and performs no
    iteration: phase index, shaft position and delays are unchanged. *)
Theorem Step_zero_idle rsp fsp rev half inv (speed : StepperSpeed_t) (b : board) :
  let c := make_board rsp fsp rev half inv in
  let b' := Step c 0 speed b in
  m_CurrentStepperPhase b' = m_CurrentStepperPhase b
  /\ motor_pos b' = motor_pos b
  /\ delay_log b' = delay_log b
  /\ (forall p, In p (m_pStepperPins c) -> Z.testbit (gpio_out b') p = false)
  /\ (forall k, ~ In k (m_pStepperPins c) ->
        Z.testbit (gpio_out b') k = Z.testbit (gpio_out b) k).
Proof.
  intros c b'. subst c b'. unfold Step. cbn [Z.eqb].
  split; [reflexivity|]. split; [reflexivity|]. split; [reflexivity|].
  unfold out_w1tc, make_board; cbn [gpio_out m_StepperClearMask m_pStepperPins].
  destruct rev;
    unfold StepperPins, StepperPinsReversed,
      PHASE_1_PIN, PHASE_2_PIN, PHASE_3_PIN, PHASE_4_PIN, PIN_BP;
    (split; [intros p Hp | intros k Hk]).
  1, 3: cbn in Hp; repeat match goal with H : _ \/ _ |- _ => destruct H end;
        try contradiction; subst;
        rewrite Z.land_spec, Z.lnot_spec by lia; apply andb_false_r.
  all: destruct (Z.lt_ge_cases k 0) as [Hneg|Hnn];
    [rewrite !Z.testbit_neg_r by exact Hneg; reflexivity|].
  all: rewrite Z.land_spec, Z.lnot_spec, !Z.lor_spec, !Z.shiftl_1_l,
         !Z.pow2_bits_eqb by (cbn; lia); cbn [nth].
  all: cbn in Hk; assert (k <> 19 /\ k <> 16 /\ k <> 17 /\ k <> 21) by intuition.
  all: rewrite !(proj2 (Z.eqb_neq _ k)) by lia; apply andb_true_r.
Qed.

(** C8: from any phase index in range, [Step(n, StepFast)] followed by
    [Step(-n, StepFast)] returns the phase index to its starting value. *)
Theorem Step_fast_reversible (rsp fsp : Z) (rev half inv : bool) (n : Z) (b : board) :
  0 <= m_CurrentStepperPhase b < (if half then 8 else 4) ->
  m_CurrentStepperPhase
    (Step (make_board rsp fsp rev half inv) (- n) StepFast
       (Step (make_board rsp fsp rev half inv) n StepFast b)) =
  m_CurrentStepperPhase b.
Proof.
  intros Hb.
  pose proof (make_board_phases rsp fsp rev half inv) as Hc.
  assert (HP : m_NumStepperPhases (make_board rsp fsp rev half inv) = if half then 8 else 4)
    by reflexivity.
  assert (H1 := Step_phase (make_board rsp fsp rev half inv) Hc n StepFast b
                 ltac:(rewrite HP; exact Hb)).
  rewrite (Step_phase (make_board rsp fsp rev half inv) Hc (- n))
    by (rewrite H1, HP; apply Z.mod_pos_bound; destruct half; lia).
  rewrite H1.
  rewrite Zplus_mod_idemp_l, HP, Z.abs_opp. unfold phase_delta. rewrite HP.
  rewrite <- Z.add_assoc, <- Z.mul_add_distr_l.
  transitivity ((m_CurrentStepperPhase b + Z.abs n * (if half then 8 else 4))
                  mod (if half then 8 else 4)).
  { f_equal. destruct (Z.ltb_spec 0 n), (Z.ltb_spec 0 (- n)); destruct half; lia. }
  rewrite Z_mod_plus_full. apply Z.mod_small; exact Hb.
Qed.

(** ** Lemmas on the mechanics *)

Section Homing.

Variables (bc : board_cfg) (home_high : Z -> bool).

Lemma mStep_pos steps speed m :
  motor_pos (board_st (mStep bc steps speed m)) = motor_pos (board_st m) + steps.
Proof. apply Step_pos. Qed.

(** What a homing loop run from [i] does: it stops at the first index [r]
    (relative to where it started) at which the sensor no longer reads
    [keep], or at [limit]; the shaft has moved [r - i] steps in direction
    [dir], each through one [Step(dir, speed)] call; the position state is
    untouched. *)
Lemma home_loop_spec keep dir speed limit :
  forall fuel i m, 0 <= i -> i + Z.of_nat fuel = limit ->
  let r := home_loop bc home_high keep dir speed limit fuel i m in
  i <= fst r <= limit
  /\ motor_pos (board_st (snd r)) = motor_pos (board_st m) + dir * (fst r - i)
  /\ (forall k, i <= k < fst r ->
        home_active bc home_high (motor_pos (board_st m) + dir * (k - i)) = keep)
  /\ (fst r < limit ->
        home_active bc home_high (motor_pos (board_st m) + dir * (fst r - i)) <> keep)
  /\ step_calls (snd r) = repeat (dir, speed) (Z.to_nat (fst r - i)) ++ step_calls m
  /\ m_LastStepperPos (snd r) = m_LastStepperPos m
  /\ m_LastMinutes (snd r) = m_LastMinutes m.
Proof.
  induction fuel as [|f IH]; intros i m Hi Hlim; cbn [home_loop fst snd].
  - rewrite Z.sub_diag. cbn [Z.to_nat repeat app].
    repeat split; try lia; intros; lia.
  - replace (i <? limit) with true by (symmetry; apply Z.ltb_lt; lia).
    rewrite andb_true_r.
    destruct (Bool.eqb (IsHome bc home_high (board_st m)) keep) eqn:Hk.
    + apply Bool.eqb_prop in Hk. unfold IsHome in Hk.
      destruct (IH (i + 1) (mStep bc dir speed m)) as (Hb & Hp & Hin & Hout & Hc & Hl & Hm);
        [lia | lia |].
      set (r := home_loop bc home_high keep dir speed limit f (i + 1) (mStep bc dir speed m))
        in *.
      rewrite mStep_pos in Hp, Hin, Hout.
      split; [lia|]. split; [rewrite Hp; lia|]. split; [|split; [|split]].
      * intros k Hk'. destruct (Z.eq_dec k i) as [->|Hne].
        -- rewrite Z.sub_diag, Z.mul_0_r, Z.add_0_r. exact Hk.
        -- rewrite <- (Hin k) by lia. f_equal. lia.
      * intros Hr. replace (motor_pos (board_st m) + dir * (fst r - i))
          with (motor_pos (board_st m) + dir + dir * (fst r - (i + 1))) by lia.
        apply Hout; exact Hr.
      * rewrite Hc. cbn [step_calls mStep].
        replace (Z.to_nat (fst r - i)) with (S (Z.to_nat (fst r - (i + 1)))) by lia.
        change ((dir, speed) :: step_calls m) with ([(dir, speed)] ++ step_calls m).
        rewrite app_assoc, <- repeat_cons. reflexivity.
      * split; [rewrite Hl | rewrite Hm]; reflexivity.
    + cbn [fst snd]. rewrite Z.sub_diag, Z.mul_0_r, Z.add_0_r.
      repeat split; try lia.
      intros _ Heq. unfold IsHome in Hk. rewrite <- Heq in Hk.
      unfold home_active in Hk. rewrite Bool.eqb_reflx in Hk. discriminate.
Qed.

End Homing.

Section HomingRuns.

Variables (bc : board_cfg) (home_high : Z -> bool).

Lemma home_loop_keeps_position keep dir speed limit :
  forall fuel i m,
  m_LastStepperPos (snd (home_loop bc home_high keep dir speed limit fuel i m))
    = m_LastStepperPos m
  /\ m_LastMinutes (snd (home_loop bc home_high keep dir speed limit fuel i m))
    = m_LastMinutes m.
Proof.
  induction fuel as [|f IH]; intros i m; cbn [home_loop]; [split; reflexivity|].
  destruct (_ && _); [|split; reflexivity].
  destruct (IH (i + 1) (mStep bc dir speed m)) as [H1 H2].
  rewrite H1, H2. split; reflexivity.
Qed.

(** A homing loop stops exactly at the first index where the sensor stops
    reading [keep], when that index is within [limit]. *)
Lemma home_loop_first keep dir speed limit m k :
  0 <= k < limit ->
  (forall j, 0 <= j < k ->
     home_active bc home_high (motor_pos (board_st m) + dir * j) = keep) ->
  home_active bc home_high (motor_pos (board_st m) + dir * k) <> keep ->
  fst (home_loop bc home_high keep dir speed limit (Z.to_nat limit) 0 m) = k.
Proof.
  intros Hk Hbefore Hat.
  destruct (home_loop_spec bc home_high keep dir speed limit (Z.to_nat limit) 0 m)
    as (Hb & _ & Hin & Hout & _); [lia | lia |].
  set (r := fst (home_loop bc home_high keep dir speed limit (Z.to_nat limit) 0 m)) in *.
  destruct (Z.lt_trichotomy r k) as [Hlt|[Heq|Hgt]].
  - exfalso. apply (Hout ltac:(lia)). rewrite Z.sub_0_r. apply Hbefore. lia.
  - exact Heq.
  - exfalso. apply Hat. rewrite <- (Hin k) by lia. rewrite Z.sub_0_r. reflexivity.
Qed.

End HomingRuns.

Ltac split_home_result :=
  repeat match goal with
  | |- context [match ?x with pair _ _ => _ end] =>
      let i := fresh "i" in let m := fresh "m" in destruct x as [i m]
  | |- context [if ?c then _ else _] => destruct c
  end.

(** ** Claims on homing *)

(** C10: [Home()] writes [m_LastStepperPos] and [m_LastMinutes] only on its
    success path (both to 0); on every failure status both keep the values
    they had on entry. *)
Theorem Home_failure_keeps_position (bc : board_cfg) (mc : mech_cfg)
    (home_high : Z -> bool) (m : mech) :
  m_LastStepperPos (snd (Home bc mc home_high m)) =
    match fst (Home bc mc home_high m) with
    | StatusSuccess => 0
    | _ => m_LastStepperPos m
    end
  /\ m_LastMinutes (snd (Home bc mc home_high m)) =
    match fst (Home bc mc home_high m) with
    | StatusSuccess => 0
    | _ => m_LastMinutes m
    end.
Proof.
  unfold Home.
  destruct (home_loop _ _ false STEP_CW StepFast _ _ 0 m) as [i1 m1] eqn:E1.
  destruct (home_loop_keeps_position bc home_high false STEP_CW StepFast (home_budget mc)
              (Z.to_nat (home_budget mc)) 0 m) as [P1 N1].
  rewrite E1 in P1, N1; cbn [snd] in P1, N1.
  destruct (home_budget mc <=? i1); [cbn; split; assumption|].
  destruct (home_loop _ _ true STEP_CCW StepFast _ _ 0 m1) as [i2 m2] eqn:E2.
  destruct (home_loop_keeps_position bc home_high true STEP_CCW StepFast (m_StepsPerHour mc)
              (Z.to_nat (m_StepsPerHour mc)) 0 m1) as [P2 N2].
  rewrite E2 in P2, N2; cbn [snd] in P2, N2.
  destruct (m_StepsPerHour mc <=? i2); [cbn; split; congruence|].
  destruct (home_loop _ _ false STEP_CW StepSlow _ _ 0 m2) as [i3 m3] eqn:E3.
  destruct (home_loop_keeps_position bc home_high false STEP_CW StepSlow (m_StepsPerHour mc)
              (Z.to_nat (m_StepsPerHour mc)) 0 m2) as [P3 N3].
  rewrite E3 in P3, N3; cbn [snd] in P3, N3.
  destruct (m_StepsPerHour mc <=? i3); cbn; split; congruence.
Qed.

(** C4: [Home()] returns [StatusHomePhase1Error] exactly when the sensor reads
    inactive at each of the [MAX_STEPS = steps_per_cycle + steps_per_hour]
    positions phase 1 checks before stepping (the start and the next
    [MAX_STEPS - 1] positions clockwise); and it returns that error only
    after all [MAX_STEPS] single clockwise [Fast] steps. *)
Theorem Home_phase1_error (bc : board_cfg) (mc : mech_cfg) (home_high : Z -> bool)
    (m : mech) :
  (fst (Home bc mc home_high m) = StatusHomePhase1Error <->
   forall k, 0 <= k < home_budget mc ->
     home_active bc home_high (motor_pos (board_st m) + k) = false)
  /\ (fst (Home bc mc home_high m) = StatusHomePhase1Error ->
      motor_pos (board_st (snd (Home bc mc home_high m)))
        = motor_pos (board_st m) + home_budget mc
      /\ step_calls (snd (Home bc mc home_high m))
        = repeat (STEP_CW, StepFast) (Z.to_nat (home_budget mc)) ++ step_calls m).
Proof.
  assert (HB : 0 <= home_budget mc) by (apply Z.mod_pos_bound; lia).
  destruct (home_loop_spec bc home_high false STEP_CW StepFast (home_budget mc)
              (Z.to_nat (home_budget mc)) 0 m) as (Hb & Hp & Hin & Hout & Hc & _);
    [lia | lia |].
  unfold Home.
  destruct (home_loop _ _ false STEP_CW StepFast _ _ 0 m) as [i1 m1] eqn:E1.
  cbn [fst snd] in Hb, Hp, Hin, Hout, Hc.
  destruct (Z.leb_spec (home_budget mc) i1) as [Hle|Hlt].
  - assert (i1 = home_budget mc) by lia. subst i1. cbn [fst snd].
    split; [split; [intros _|reflexivity]|intros _].
    + intros k Hk. rewrite <- (Hin k) by lia. f_equal. unfold STEP_CW. lia.
    + split; [rewrite Hp; unfold STEP_CW; lia|]. rewrite Hc, Z.sub_0_r. reflexivity.
  - assert (Hnot : forall st m', (st, m') =
        (let '(i, m) := home_loop bc home_high true STEP_CCW StepFast (m_StepsPerHour mc)
                          (Z.to_nat (m_StepsPerHour mc)) 0 m1 in
         if m_StepsPerHour mc <=? i then (StatusHomePhase2Error, m) else
         let '(i, m) := home_loop bc home_high false STEP_CW StepSlow (m_StepsPerHour mc)
                          (Z.to_nat (m_StepsPerHour mc)) 0 m in
         if m_StepsPerHour mc <=? i then (StatusHomePhase3Error, m) else
         (StatusSuccess, set_position 0 0 m)) -> st <> StatusHomePhase1Error).
    { intros st m'. split_home_result; intros Heq; injection Heq; intros; subst; discriminate. }
    destruct (let '(i, m) := _ in _) as [st m'] eqn:Er.
    specialize (Hnot st m' eq_refl). cbn [fst].
    split; [split|intros Habs; contradiction].
    + intros Habs; contradiction.
    + intros Hall. exfalso. apply (Hout Hlt). rewrite Z.sub_0_r.
      unfold STEP_CW. rewrite Z.mul_1_l. apply Hall. lia.
Qed.

(** C3 (as amended): let the sensor be first seen active [k < MAX_STEPS]
    steps clockwise of the start ([MAX_STEPS = steps_per_cycle +
    steps_per_hour]).  Then, whatever the starting phase index: if the active
    run behind that point is [mm] steps long with [mm < steps_per_hour], so
    that the phase-2 back-off clears it within its budget, [Home()] ends in
    [StatusSuccess] with [m_LastStepperPos] and [m_LastMinutes] reset to 0;
    if instead the sensor reads active at all [steps_per_hour] positions from
    that point counter-clockwise, [Home()] returns [StatusHomePhase2Error]. *)
Theorem Home_succeeds_narrow_sensor (bc : board_cfg) (mc : mech_cfg)
    (home_high : Z -> bool) (m : mech) (k : Z) :
  0 <= k < home_budget mc ->
  (forall j, 0 <= j < k ->
     home_active bc home_high (motor_pos (board_st m) + j) = false) ->
  home_active bc home_high (motor_pos (board_st m) + k) = true ->
  (forall mm, 0 < mm < m_StepsPerHour mc ->
     (forall j, 0 <= j < mm ->
        home_active bc home_high (motor_pos (board_st m) + k - j) = true) ->
     home_active bc home_high (motor_pos (board_st m) + k - mm) = false ->
     fst (Home bc mc home_high m) = StatusSuccess
     /\ m_LastStepperPos (snd (Home bc mc home_high m)) = 0
     /\ m_LastMinutes (snd (Home bc mc home_high m)) = 0)
  /\ ((forall j, 0 <= j < m_StepsPerHour mc ->
         home_active bc home_high (motor_pos (board_st m) + k - j) = true) ->
      fst (Home bc mc home_high m) = StatusHomePhase2Error).
Proof.
  intros Hk Hbefore Hat.
  set (p0 := motor_pos (board_st m)) in *.
  (* phase 1 *)
  assert (F1 : fst (home_loop bc home_high false STEP_CW StepFast (home_budget mc)
                      (Z.to_nat (home_budget mc)) 0 m) = k).
  { apply home_loop_first; [lia| |].
    - intros j Hj. unfold STEP_CW. rewrite Z.mul_1_l. apply Hbefore. exact Hj.
    - unfold STEP_CW. rewrite Z.mul_1_l. fold p0. rewrite Hat. discriminate. }
  destruct (home_loop_spec bc home_high false STEP_CW StepFast (home_budget mc)
              (Z.to_nat (home_budget mc)) 0 m) as (_ & P1 & _); [lia | lia |].
  unfold Home.
  destruct (home_loop _ _ false STEP_CW StepFast _ _ 0 m) as [i1 m1] eqn:E1.
  cbn [fst snd] in F1, P1. subst i1. fold p0 in P1. unfold STEP_CW in P1.
  replace (home_budget mc <=? k) with false by (symmetry; apply Z.leb_gt; lia).
  split.
  2:{
  (* phase 2 never clears an active run of [steps_per_hour] positions *)
  intros Hwide.
  destruct (Z.le_gt_cases 0 (m_StepsPerHour mc)) as [HH|HH].
  2:{ replace (Z.to_nat (m_StepsPerHour mc)) with 0%nat by lia. cbn [home_loop].
      replace (m_StepsPerHour mc <=? 0) with true by (symmetry; apply Z.leb_le; lia).
      reflexivity. }
  destruct (home_loop_spec bc home_high true STEP_CCW StepFast (m_StepsPerHour mc)
              (Z.to_nat (m_StepsPerHour mc)) 0 m1) as (B2 & _ & _ & Out2 & _); [lia | lia |].
  destruct (home_loop _ _ true STEP_CCW StepFast _ _ 0 m1) as [i2 m2].
  cbn [fst] in B2, Out2.
  destruct (Z.eq_dec i2 (m_StepsPerHour mc)) as [->|Hne].
  - rewrite Z.leb_refl. reflexivity.
  - exfalso. apply Out2; [lia|]. rewrite P1. unfold STEP_CCW.
    replace (p0 + 1 * (k - 0) + -1 * (i2 - 0)) with (p0 + k - i2) by lia.
    apply Hwide. lia. }
  intros mm Hmm Hrun Hclear.
  (* phase 2 *)
  assert (F2 : fst (home_loop bc home_high true STEP_CCW StepFast (m_StepsPerHour mc)
                      (Z.to_nat (m_StepsPerHour mc)) 0 m1) = mm).
  { apply home_loop_first; [lia| |].
    - intros j Hj. rewrite P1. unfold STEP_CCW.
      replace (p0 + 1 * (k - 0) + -1 * j) with (p0 + k - j) by lia. apply Hrun. exact Hj.
    - rewrite P1. unfold STEP_CCW.
      replace (p0 + 1 * (k - 0) + -1 * mm) with (p0 + k - mm) by lia.
      rewrite Hclear. discriminate. }
  destruct (home_loop_spec bc home_high true STEP_CCW StepFast (m_StepsPerHour mc)
              (Z.to_nat (m_StepsPerHour mc)) 0 m1) as (_ & P2 & _); [lia | lia |].
  destruct (home_loop _ _ true STEP_CCW StepFast _ _ 0 m1) as [i2 m2] eqn:E2.
  cbn [fst snd] in F2, P2. subst i2. unfold STEP_CCW in P2.
  replace (m_StepsPerHour mc <=? mm) with false by (symmetry; apply Z.leb_gt; lia).
  (* phase 3 *)
  assert (F3 : fst (home_loop bc home_high false STEP_CW StepSlow (m_StepsPerHour mc)
                      (Z.to_nat (m_StepsPerHour mc)) 0 m2) = 1).
  { apply home_loop_first; [lia| |].
    - intros j Hj. replace j with 0 by lia. rewrite P2, P1.
      replace (p0 + 1 * (k - 0) + -1 * (mm - 0) + STEP_CW * 0) with (p0 + k - mm) by lia.
      exact Hclear.
    - rewrite P2, P1.
      replace (p0 + 1 * (k - 0) + -1 * (mm - 0) + STEP_CW * 1)
        with (p0 + k - (mm - 1)) by (unfold STEP_CW; lia).
      rewrite Hrun by lia. discriminate. }
  destruct (home_loop _ _ false STEP_CW StepSlow _ _ 0 m2) as [i3 m3] eqn:E3.
  cbn [fst] in F3. subst i3.
  replace (m_StepsPerHour mc <=? 1) with false by (symmetry; apply Z.leb_gt; lia).
  cbn. repeat split.
Qed.

(** C3, refuted as stated: with the default 28BYJ-48 configuration and a
    home switch made over 6000 consecutive steps (wider than
    [steps_per_hour = 5461]), homing started inside the active zone, 5999
    steps past its start, sees the sensor at once but cannot back off it
    within phase 2's budget. *)
Lemma Home_wide_sensor_phase2_error :
  home_active (fst geneva_default) (switch_window 0 6000 65536) 5999 = true
  /\ m_StepsPerHour (snd geneva_default) = 5461
  /\ fst (Home (fst geneva_default) (snd geneva_default) (switch_window 0 6000 65536)
            (mech_init (board_at 5999))) = StatusHomePhase2Error.
Proof. vm_compute. repeat split. Qed.

(** The amended C3 at the default configuration with a 600-step switch,
    homing started 536 steps before it. *)
Lemma Home_succeeds_narrow_sensor_witness :
  fst (Home (fst geneva_default) (snd geneva_default) (switch_window 0 600 65536)
         (mech_init (board_at 65000))) = StatusSuccess
  /\ m_LastStepperPos (snd (Home (fst geneva_default) (snd geneva_default)
         (switch_window 0 600 65536) (mech_init (board_at 65000)))) = 0
  /\ m_LastMinutes (snd (Home (fst geneva_default) (snd geneva_default)
         (switch_window 0 600 65536) (mech_init (board_at 65000)))) = 0.
Proof.
  apply (proj1 (Home_succeeds_narrow_sensor (fst geneva_default) (snd geneva_default)
           (switch_window 0 600 65536) (mech_init (board_at 65000)) 536
           ltac:(split; [lia | vm_compute; reflexivity])
           ltac:(intros j Hj; unfold home_active, switch_window;
                 change (motor_pos (board_st (mech_init (board_at 65000)))) with 65000;
                 rewrite Z.mod_small by lia;
                 replace (65000 + j <? 0 + 600) with false
                   by (symmetry; apply Z.ltb_ge; lia);
                 rewrite andb_false_r; vm_compute; reflexivity)
           ltac:(vm_compute; reflexivity)) 1);
    change (motor_pos (board_st (mech_init (board_at 65000)))) with 65000.
  - split; [lia | vm_compute; reflexivity].
  - intros j Hj. replace j with 0 by lia. vm_compute. reflexivity.
  - vm_compute. reflexivity.
Defined.

(** ** Claims on the time update *)

(** With a position state in range, the shortest-path correction bounds the
    move by half a cycle. *)
Lemma normalize_delta_bound (cyc last target : Z) :
  0 < cyc -> 0 <= last < cyc -> 0 <= target < cyc ->
  Z.abs (normalize_delta cyc (target - last)) <= Z.quot cyc 2.
Proof.
  intros Hc Hl Ht. unfold normalize_delta.
  rewrite Z.quot_opp_l by lia. rewrite Z.quot_div_nonneg by lia.
  pose proof (Z.div_mod cyc 2 ltac:(lia)) as Hd.
  pose proof (Z.mod_pos_bound cyc 2 ltac:(lia)) as Hm.
  destruct (Z.ltb_spec (cyc / 2) (target - last));
    [|destruct (Z.ltb_spec (target - last) (- (cyc / 2)))]; lia.
Qed.

(** C1, code_bug: [m_LastStepperPos] can be negative (C's [%], see C2), and
    then the correction, which only adds or subtracts one cycle, is not
    enough.  From the homed state, updates for 06:01, 00:02 and 11:59 leave
    [m_LastStepperPos = -65354] after the second call, and the third call
    issues [Step(65262, StepAuto)], almost a full cycle of 65536 steps. *)
Theorem UpdateClock_long_way_round :
  m_LastStepperPos (run_updates (fst geneva_default) (snd geneva_default)
                      [at_time 6 1; at_time 0 2] homed_state) = -65354
  /\ step_calls (run_updates (fst geneva_default) (snd geneva_default)
                   [at_time 6 1; at_time 0 2; at_time 11 59] homed_state)
     = [(65262, StepAuto); (-32677, StepAuto); (-32677, StepAuto)]
  /\ m_StepsPerCycle (snd geneva_default) = 65536
  /\ Z.quot (m_StepsPerCycle (snd geneva_default)) 2 < Z.abs 65262.
Proof. vm_compute. repeat split. Qed.

(** C2, code_bug: C's [%] keeps the sign of its left operand, so the update
    [m_LastStepperPos = (m_LastStepperPos + deltaSteps) % m_StepsPerCycle]
    leaves a negative position.  From the homed state, the update for 11:59
    moves [-92] steps and stores [m_LastStepperPos = -92]. *)
Theorem UpdateClock_negative_position :
  step_calls (UpdateClock (fst geneva_default) (snd geneva_default) (at_time 11 59)
                homed_state) = [(-92, StepAuto)]
  /\ m_LastStepperPos (UpdateClock (fst geneva_default) (snd geneva_default)
                        (at_time 11 59) homed_state) = -92.
Proof. vm_compute. split; reflexivity. Qed.

(** C9: the default 28BYJ-48 configuration (2048 full steps, half stepping):
    [m_StepsPerCycle = stepsPerRev * GEAR_RATIO * (HOURS_PER_CYCLE /
    HOURS_PER_REV)] with no remainder (65536); 00:00 maps to position 0 and
    06:00 to half the cycle; and from a homed state the updates for 00:00 and
    06:01 issue exactly one [Step] call, whose argument is the target of
    06:01 minus 0, shortest-path corrected. *)
Theorem UpdateClock_default_example (m : mech) :
  m_StepsPerCycle (snd geneva_default) = 4096 * GEAR_RATIO * (HOURS_PER_CYCLE / HOURS_PER_REV)
  /\ HOURS_PER_CYCLE mod HOURS_PER_REV = 0
  /\ m_StepsPerCycle (snd geneva_default) = 65536
  /\ motor_target (snd geneva_default) (time_in_minutes (at_time 0 0)) = 0
  /\ motor_target (snd geneva_default) (time_in_minutes (at_time 6 0))
     = m_StepsPerCycle (snd geneva_default) / 2
  /\ 2 * (m_StepsPerCycle (snd geneva_default) / 2) = m_StepsPerCycle (snd geneva_default)
  /\ step_calls (run_updates (fst geneva_default) (snd geneva_default)
                   [at_time 0 0; at_time 6 1] (set_position 0 0 m))
     = (normalize_delta (m_StepsPerCycle (snd geneva_default))
          (motor_target (snd geneva_default) (time_in_minutes (at_time 6 1)) - 0),
        StepAuto) :: step_calls m
  /\ normalize_delta (m_StepsPerCycle (snd geneva_default))
       (motor_target (snd geneva_default) (time_in_minutes (at_time 6 1)) - 0) = -32677.
Proof.
  split; [vm_compute; reflexivity|]. split; [vm_compute; reflexivity|].
  split; [vm_compute; reflexivity|]. split; [vm_compute; reflexivity|].
  split; [vm_compute; reflexivity|]. split; [vm_compute; reflexivity|].
  split; [cbv -[Step]; reflexivity|]. vm_compute. reflexivity.
Qed.

(** ** Witnesses for the driver claims *)

Lemma Step_direction_and_count_witness :
  Step (make_board 8 2048 false true true) (-3) StepAuto (board_init 0) =
  fold_left
    (fun b k => step_body (make_board 8 2048 false true true)
                  (phase_delta (make_board 8 2048 false true true) (-3))
                  (Z.sgn (-3)) StepAuto (Z.abs (-3)) (Z.of_nat k) b)
    (seq 0 (Z.to_nat (Z.abs (-3)))) (board_init 0)
  /\ phase_delta (make_board 8 2048 false true true) (-3) = (if 0 <? -3 then 1 else 8 - 1)
  /\ (forall n j b',
        m_CurrentStepperPhase
          (step_body (make_board 8 2048 false true true)
             (phase_delta (make_board 8 2048 false true true) (-3))
             (Z.sgn (-3)) StepAuto n j b') =
        (m_CurrentStepperPhase b' + phase_delta (make_board 8 2048 false true true) (-3))
          mod 8)
  /\ motor_pos (Step (make_board 8 2048 false true true) (-3) StepAuto (board_init 0))
     = motor_pos (board_init 0) + -3.
Proof.
  apply (Step_direction_and_count 8 2048 false true true (-3) StepAuto (board_init 0)).
  discriminate.
Defined.

Lemma Step_fast_reversible_witness :
  m_CurrentStepperPhase
    (Step (make_board 8 2048 false true true) (- 11) StepFast
       (Step (make_board 8 2048 false true true) 11 StepFast (board_at 0))) =
  m_CurrentStepperPhase (board_at 0).
Proof.
  apply (Step_fast_reversible 8 2048 false true true 11 (board_at 0)).
  cbn. lia.
Defined.

(** ** Further properties of the driver *)

Section PhaseArith.

Variable c : board_cfg.
Hypothesis Hphases : m_NumStepperPhases c = 4 \/ m_NumStepperPhases c = 8.

(** Both step directions move the phase index by [steps] modulo the phase
    count. *)
Lemma Step_phase_add steps speed b :
  0 <= m_CurrentStepperPhase b < m_NumStepperPhases c ->
  m_CurrentStepperPhase (Step c steps speed b) =
  (m_CurrentStepperPhase b + steps) mod m_NumStepperPhases c.
Proof.
  intros Hb. rewrite (Step_phase c Hphases) by exact Hb. unfold phase_delta.
  destruct (Z.ltb_spec 0 steps).
  - rewrite Z.abs_eq, Z.mul_1_r by lia. reflexivity.
  - rewrite Z.abs_neq by lia.
    replace (m_CurrentStepperPhase b + - steps * (m_NumStepperPhases c - 1))
      with (m_CurrentStepperPhase b + steps + (- steps) * m_NumStepperPhases c) by ring.
    apply Z_mod_plus_full.
Qed.

End PhaseArith.

Section Outputs.

Variable c : board_cfg.
Hypothesis Hseq : forall x, In x (m_StepperSequence c) ->
  Z.land x (m_StepperClearMask c) = x.

Lemma sequence_bit_in_mask i k :
  Z.testbit (nth i (m_StepperSequence c) 0) k = true ->
  Z.testbit (m_StepperClearMask c) k = true.
Proof.
  intros Hx. destruct (nth_in_or_default i (m_StepperSequence c) 0) as [Hin|Hd].
  - rewrite <- (Hseq _ Hin), Z.land_spec in Hx. apply andb_true_iff in Hx. apply Hx.
  - rewrite Hd, Z.bits_0 in Hx. discriminate.
Qed.

Lemma step_body_bit delta dir speed n j b k :
  Z.testbit (gpio_out (step_body c delta dir speed n j b)) k =
  if Z.testbit (m_StepperClearMask c) k then false else Z.testbit (gpio_out b) k.
Proof.
  assert (Hg : gpio_out (step_body c delta dir speed n j b) =
    Z.land (Z.lor (gpio_out b)
              (nth (Z.to_nat (u32 (m_CurrentStepperPhase b + delta) mod m_NumStepperPhases c))
                 (m_StepperSequence c) 0))
      (Z.lnot (m_StepperClearMask c))).
  { unfold step_body, delay_if. destruct speed; [reflexivity| |reflexivity].
    destruct (j <? 20), (j <? 10), (j <? 5), (n - j <? 20), (n - j <? 10), (n - j <? 5);
      reflexivity. }
  rewrite Hg.
  destruct (Z.lt_ge_cases k 0) as [Hneg|Hnn].
  { rewrite !Z.testbit_neg_r by exact Hneg. reflexivity. }
  rewrite Z.land_spec, Z.lnot_spec, Z.lor_spec by exact Hnn.
  destruct (Z.testbit (m_StepperClearMask c) k) eqn:Hm.
  - apply andb_false_r.
  - set (i := Z.to_nat _).
    destruct (Z.testbit (nth i (m_StepperSequence c) 0) k) eqn:Hx.
    + rewrite (sequence_bit_in_mask i k Hx) in Hm. discriminate.
    + rewrite orb_false_r, andb_true_r. reflexivity.
Qed.

Lemma fold_body_bit_outside delta dir speed n k (l : list nat) :
  Z.testbit (m_StepperClearMask c) k = false ->
  forall b,
  Z.testbit (gpio_out (fold_left (fun b j => step_body c delta dir speed n (Z.of_nat j) b)
                         l b)) k = Z.testbit (gpio_out b) k.
Proof.
  intros Hm. induction l as [|x l IH]; intros b; [reflexivity|].
  cbn [fold_left]. rewrite IH, step_body_bit, Hm. reflexivity.
Qed.

Lemma fold_body_bit_inside delta dir speed n k (l : list nat) :
  Z.testbit (m_StepperClearMask c) k = true -> l <> [] ->
  forall b,
  Z.testbit (gpio_out (fold_left (fun b j => step_body c delta dir speed n (Z.of_nat j) b)
                         l b)) k = false.
Proof.
  intros Hm. induction l as [|x l IH]; intros Hl b; [contradiction|].
  cbn [fold_left]. destruct l as [|y l'].
  - cbn [fold_left]. rewrite step_body_bit, Hm. reflexivity.
  - apply IH. discriminate.
Qed.

Lemma Step_bit steps speed b k :
  Z.testbit (gpio_out (Step c steps speed b)) k =
  if Z.testbit (m_StepperClearMask c) k then false else Z.testbit (gpio_out b) k.
Proof.
  destruct (Z.eq_dec steps 0) as [->|Hs].
  - unfold Step; cbn [Z.eqb out_w1tc gpio_out].
    destruct (Z.lt_ge_cases k 0) as [Hneg|Hnn].
    { rewrite !Z.testbit_neg_r by exact Hneg. destruct (Z.testbit (m_StepperClearMask c) k); reflexivity. }
    rewrite Z.land_spec, Z.lnot_spec by exact Hnn.
    destruct (Z.testbit (m_StepperClearMask c) k); cbn [negb];
      [apply andb_false_r | apply andb_true_r].
  - rewrite Step_as_fold by exact Hs.
    destruct (Z.testbit (m_StepperClearMask c) k) eqn:Hm.
    + apply fold_body_bit_inside; [exact Hm|].
      destruct (Z.to_nat (Z.abs steps)) eqn:E; [lia|discriminate].
    + apply fold_body_bit_outside; exact Hm.
Qed.

End Outputs.

Lemma make_board_sequence_in_mask rsp fsp rev half inv x :
  In x (m_StepperSequence (make_board rsp fsp rev half inv)) ->
  Z.land x (m_StepperClearMask (make_board rsp fsp rev half inv)) = x.
Proof.
  assert (Hall : forallb (fun y => Z.land y (m_StepperClearMask (make_board rsp fsp rev half inv))
                                   =? y)
                   (m_StepperSequence (make_board rsp fsp rev half inv)) = true)
    by (destruct rev, half; vm_compute; reflexivity).
  intros Hx. rewrite forallb_forall in Hall. apply Z.eqb_eq, Hall, Hx.
Qed.

Lemma make_board_mask_bit rsp fsp rev half inv k :
  Z.testbit (m_StepperClearMask (make_board rsp fsp rev half inv)) k =
  is_stepper_pin (make_board rsp fsp rev half inv) k.
Proof.
  unfold is_stepper_pin, make_board; cbn [m_StepperClearMask m_pStepperPins].
  destruct rev; unfold StepperPins, StepperPinsReversed;
    rewrite !Z.lor_spec, !PIN_BP_testbit by (cbn; unfold PHASE_1_PIN, PHASE_2_PIN,
      PHASE_3_PIN, PHASE_4_PIN; lia);
    cbn [nth existsb]; rewrite !(Z.eqb_sym k), orb_false_r, !orb_assoc; reflexivity.
Qed.

Lemma concat_repeat_comm {A} (d : list A) n :
  concat (repeat d n) ++ d = d ++ concat (repeat d n).
Proof.
  induction n as [|n IH]; cbn [repeat concat]; [rewrite app_nil_r; reflexivity|].
  rewrite <- app_assoc, IH. reflexivity.
Qed.

Lemma concat_repeat_single {A} (x : A) n : concat (repeat [x] n) = repeat x n.
Proof. induction n as [|n IH]; cbn [repeat concat]; [reflexivity|]. rewrite IH. reflexivity. Qed.

Lemma fold_body_const_delays c delta dir speed n (d : list Z) (l : list nat) :
  (forall j b, delay_log (step_body c delta dir speed n j b) = d ++ delay_log b) ->
  forall b,
  delay_log (fold_left (fun b j => step_body c delta dir speed n (Z.of_nat j) b) l b) =
  concat (repeat d (length l)) ++ delay_log b.
Proof.
  intros Hd. induction l as [|x l IH]; intros b; [reflexivity|].
  cbn [fold_left length repeat concat]. rewrite IH, Hd, app_assoc, concat_repeat_comm.
  reflexivity.
Qed.

Lemma Step_const_delays c steps speed (d : list Z) b :
  (forall delta dir n j b, delay_log (step_body c delta dir speed n j b) = d ++ delay_log b) ->
  delay_log (Step c steps speed b) = concat (repeat d (Z.to_nat (Z.abs steps))) ++ delay_log b.
Proof.
  intros Hd. destruct (Z.eq_dec steps 0) as [->|Hs]; [reflexivity|].
  rewrite Step_as_fold by exact Hs. rewrite (fold_body_const_delays _ _ _ _ _ d) by apply Hd.
  rewrite length_seq. reflexivity.
Qed.

(** Invariant: a position-phase pairing ([phase = position mod phases]) is kept by
    every [Step]. *)
Lemma run_steps_sync c (Hphases : m_NumStepperPhases c = 4 \/ m_NumStepperPhases c = 8) calls :
  forall b,
  m_CurrentStepperPhase b = motor_pos b mod m_NumStepperPhases c ->
  m_CurrentStepperPhase (run_steps c calls b) =
  motor_pos (run_steps c calls b) mod m_NumStepperPhases c.
Proof.
  assert (HP : 0 < m_NumStepperPhases c) by (destruct Hphases as [-> | ->]; lia).
  unfold run_steps. induction calls as [|[s sp] calls IH]; intros b Hb; [exact Hb|].
  cbn [fold_left fst snd]. apply IH.
  rewrite (Step_phase_add c Hphases) by (rewrite Hb; apply Z.mod_pos_bound; exact HP).
  rewrite Step_pos, Hb, Zplus_mod_idemp_l. reflexivity.
Qed.

(** X1: from a phase index in range, [Step(steps, speed)] leaves the phase
    index at [(phase + steps) mod phases], for either sign of [steps] and
    any speed, and moves the shaft by [steps]. *)
Theorem Step_phase_follows_steps (rsp fsp : Z) (rev half inv : bool) (steps : Z)
    (speed : StepperSpeed_t) (b : board) :
  0 <= m_CurrentStepperPhase b < (if half then 8 else 4) ->
  m_CurrentStepperPhase (Step (make_board rsp fsp rev half inv) steps speed b) =
    (m_CurrentStepperPhase b + steps) mod (if half then 8 else 4)
  /\ motor_pos (Step (make_board rsp fsp rev half inv) steps speed b) = motor_pos b + steps.
Proof.
  intros Hb. split.
  - apply (Step_phase_add (make_board rsp fsp rev half inv) (make_board_phases rsp fsp rev half inv)).
    exact Hb.
  - apply Step_pos.
Qed.

(** X2: if the phase index equals the shaft position modulo the phase count
    (as on construction, both 0), it still does after any sequence of [Step]
    calls, whatever their step counts and speeds. *)
Theorem Step_sequence_keeps_phase_in_sync (rsp fsp : Z) (rev half inv : bool)
    (calls : list (Z * StepperSpeed_t)) (b : board) :
  m_CurrentStepperPhase b = motor_pos b mod (if half then 8 else 4) ->
  m_CurrentStepperPhase (run_steps (make_board rsp fsp rev half inv) calls b) =
  motor_pos (run_steps (make_board rsp fsp rev half inv) calls b) mod (if half then 8 else 4).
Proof.
  apply (run_steps_sync (make_board rsp fsp rev half inv) (make_board_phases rsp fsp rev half inv)).
Qed.

(** X3: after any [Step] call, every one of the four stepper outputs is off,
    and every other bit of the GPIO output register is what it was before the
    call. *)
Theorem Step_releases_coils rsp fsp rev half inv (steps : Z) (speed : StepperSpeed_t)
    (b : board) (k : Z) :
  Z.testbit (gpio_out (Step (make_board rsp fsp rev half inv) steps speed b)) k =
  if is_stepper_pin (make_board rsp fsp rev half inv) k then false
  else Z.testbit (gpio_out b) k.
Proof.
  rewrite Step_bit by apply make_board_sequence_in_mask.
  rewrite make_board_mask_bit. reflexivity.
Qed.

(** X4: the phase table built by the constructor has one entry per phase;
    every entry is non-zero and drives only stepper pins; in half-step mode
    each entry differs from the next (cyclically) in exactly one pin; in
    full-step mode each entry drives exactly one pin and differs from the
    next. *)
Theorem make_board_phase_table rsp fsp rev half inv :
  let c := make_board rsp fsp rev half inv in
  length (m_StepperSequence c) = Z.to_nat (m_NumStepperPhases c)
  /\ (forall x, In x (m_StepperSequence c) ->
        x <> 0 /\ Z.land x (m_StepperClearMask c) = x)
  /\ (forall i, (i < length (m_StepperSequence c))%nat ->
        let x := nth i (m_StepperSequence c) 0 in
        let y := nth ((i + 1) mod length (m_StepperSequence c)) (m_StepperSequence c) 0 in
        if half then is_single_bit (Z.lxor x y) = true
        else is_single_bit x = true /\ x <> y).
Proof.
  intros c. subst c.
  destruct rev, half; (split; [reflexivity|]); split.
  all: try (intros x Hx; vm_compute in Hx;
            repeat match goal with
                   | H : _ \/ _ |- _ => destruct H as [H|H]
                   end;
            first [contradiction | subst x; split; [discriminate|reflexivity]]).
  all: intros i Hi; vm_compute in Hi;
       do 8 (destruct i as [|i];
             [first [lia | vm_compute; first [reflexivity
                                             | split; [reflexivity | intros H; discriminate H]]] |]);
       lia.
Qed.

(** X5: [Step(steps, StepSlow)] waits the rapid delay and then four times it
    (as a [uint32_t] product) on each of its [|steps|] steps;
    [Step(steps, StepFast)] waits the rapid delay once per step. *)
Theorem Step_slow_fast_delays (c : board_cfg) (steps : Z) (b : board) :
  delay_log (Step c steps StepSlow b) =
    concat (repeat [u32 (m_StepperRapidDelayUs c * 4); m_StepperRapidDelayUs c]
              (Z.to_nat (Z.abs steps))) ++ delay_log b
  /\ delay_log (Step c steps StepFast b) =
    repeat (m_StepperRapidDelayUs c) (Z.to_nat (Z.abs steps)) ++ delay_log b.
Proof.
  split.
  - apply Step_const_delays. intros; reflexivity.
  - rewrite <- concat_repeat_single. apply Step_const_delays. intros; reflexivity.
Qed.

(** ** Further properties of the mechanics *)

Lemma rem_mod_eq x cyc : cyc <> 0 -> Z.rem x cyc mod cyc = x mod cyc.
Proof.
  intros Hc. pose proof (Z.quot_rem' x cyc) as Hq.
  replace (Z.rem x cyc) with (x + (- Z.quot x cyc) * cyc) by lia.
  apply Z_mod_plus_full.
Qed.

Lemma normalize_delta_mod cyc x : normalize_delta cyc x mod cyc = x mod cyc.
Proof.
  unfold normalize_delta.
  destruct (Z.quot cyc 2 <? x); [|destruct (x <? Z.quot (- cyc) 2)].
  - replace (x - cyc) with (x + (-1) * cyc) by ring. apply Z_mod_plus_full.
  - replace (x + cyc) with (x + 1 * cyc) by ring. apply Z_mod_plus_full.
  - reflexivity.
Qed.

Lemma time_in_minutes_formula t :
  0 <= tm_hour t < 2 ^ 32 -> 0 <= tm_min t <= 59 ->
  time_in_minutes t = tm_hour t mod 12 * 60 + tm_min t.
Proof.
  intros Hh Hm. unfold time_in_minutes, to_i32, u32, HOURS_PER_CYCLE, MINUTES_PER_HOUR.
  pose proof (Z.mod_pos_bound (tm_hour t) 12 ltac:(lia)).
  rewrite (Z.mod_small (tm_hour t)), (Z.mod_small (tm_min t)) by lia.
  rewrite (Z.mod_small (tm_hour t mod 12 * 60)) by lia.
  rewrite !(Z.mod_small (tm_hour t mod 12 * 60 + tm_min t)) by lia.
  replace (tm_hour t mod 12 * 60 + tm_min t <? 2 ^ 31) with true
    by (symmetry; apply Z.ltb_lt; lia).
  reflexivity.
Qed.

Lemma motor_target_range mc mins :
  0 < m_StepsPerCycle mc -> 0 <= mins < MINUTES_PER_CYCLE ->
  0 <= motor_target mc mins < m_StepsPerCycle mc.
Proof.
  intros Hc Hm. unfold motor_target, MINUTES_PER_CYCLE, MINUTES_PER_HOUR, HOURS_PER_CYCLE in *.
  rewrite Z.quot_div_nonneg by nia. split.
  - apply Z.div_pos; lia.
  - apply Z.div_lt_upper_bound; nia.
Qed.

Lemma UpdateClock_minutes bc mc t m :
  m_LastMinutes (UpdateClock bc mc t m) = time_in_minutes t.
Proof.
  unfold UpdateClock. destruct (Z.eqb_spec (time_in_minutes t) (m_LastMinutes m)) as [E|E].
  - symmetry. exact E.
  - reflexivity.
Qed.

Section HomingCalls.

Variables (bc : board_cfg) (home_high : Z -> bool).

Lemma home_loop_calls keep dir speed limit :
  forall fuel i m,
  exists n, (n <= fuel)%nat
  /\ step_calls (snd (home_loop bc home_high keep dir speed limit fuel i m))
     = repeat (dir, speed) n ++ step_calls m.
Proof.
  induction fuel as [|f IH]; intros i m; cbn [home_loop].
  - exists 0%nat. split; reflexivity.
  - destruct (_ && _).
    + destruct (IH (i + 1) (mStep bc dir speed m)) as (n & Hn & Hc).
      exists (S n). split; [lia|]. rewrite Hc. cbn [step_calls mStep].
      change ((dir, speed) :: step_calls m) with ([(dir, speed)] ++ step_calls m).
      rewrite app_assoc, <- repeat_cons. reflexivity.
    + exists 0%nat. split; [lia | reflexivity].
Qed.

End HomingCalls.

(** X6: [UpdateClock] always records the new time ([m_LastMinutes] becomes
    the minute-of-cycle of [t]), and calling it a second time with the same
    time changes nothing: no further [Step] call, the same state. *)
Theorem UpdateClock_idempotent (bc : board_cfg) (mc : mech_cfg) (t : tm) (m : mech) :
  m_LastMinutes (UpdateClock bc mc t m) = time_in_minutes t
  /\ UpdateClock bc mc t (UpdateClock bc mc t m) = UpdateClock bc mc t m.
Proof.
  split; [apply UpdateClock_minutes|].
  pose proof (UpdateClock_minutes bc mc t m) as Hm.
  set (m' := UpdateClock bc mc t m) in *. clearbody m'.
  unfold UpdateClock. rewrite Hm, Z.eqb_refl. reflexivity.
Qed.

(** X7: [UpdateClock] moves the shaft by exactly the amount it adds to
    [m_LastStepperPos] modulo [m_StepsPerCycle]: the offset between the shaft
    position and [m_LastStepperPos] is unchanged modulo the cycle, even when
    C's [%] leaves a negative position. *)
Theorem UpdateClock_keeps_shaft_offset (bc : board_cfg) (mc : mech_cfg) (t : tm) (m : mech) :
  (motor_pos (board_st (UpdateClock bc mc t m)) - m_LastStepperPos (UpdateClock bc mc t m))
    mod m_StepsPerCycle mc
  = (motor_pos (board_st m) - m_LastStepperPos m) mod m_StepsPerCycle mc.
Proof.
  unfold UpdateClock. destruct (negb _); [|reflexivity].
  cbn [set_position board_st m_LastStepperPos mStep]. rewrite Step_pos.
  set (d := normalize_delta _ _).
  destruct (Z.eq_dec (m_StepsPerCycle mc) 0) as [E|E].
  - rewrite E, !Z.mod_0_r.
    replace (Z.rem (m_LastStepperPos m + d) 0) with (m_LastStepperPos m + d)
      by (destruct (m_LastStepperPos m + d); reflexivity).
    lia.
  - rewrite <- Zminus_mod_idemp_r, rem_mod_eq by exact E.
    rewrite Zminus_mod_idemp_r. f_equal. lia.
Qed.

(** X8: if [m_LastStepperPos] agrees with the target position of
    [m_LastMinutes] modulo [m_StepsPerCycle] (as after [Home], both 0), it
    still does after any [UpdateClock] call: the stored position always
    denotes the displayed time, up to whole cycles.  Stated for a valid time
    and a cycle small enough that [newTimeInMinutes * m_StepsPerCycle] does
    not overflow. *)
Theorem UpdateClock_tracks_target (bc : board_cfg) (mc : mech_cfg) (t : tm) (m : mech) :
  0 < m_StepsPerCycle mc -> MINUTES_PER_CYCLE * m_StepsPerCycle mc < 2 ^ 31 ->
  0 <= tm_hour t < 2 ^ 32 -> 0 <= tm_min t <= 59 ->
  (m_LastStepperPos m - motor_target mc (m_LastMinutes m)) mod m_StepsPerCycle mc = 0 ->
  (m_LastStepperPos (UpdateClock bc mc t m)
     - motor_target mc (m_LastMinutes (UpdateClock bc mc t m))) mod m_StepsPerCycle mc = 0.
Proof.
  intros _ _ _ _ Hinv. unfold UpdateClock. destruct (negb _); [|exact Hinv].
  cbn [set_position m_LastStepperPos m_LastMinutes mStep].
  set (T := motor_target mc (time_in_minutes t)).
  set (l := m_LastStepperPos m). set (cyc := m_StepsPerCycle mc).
  destruct (Z.eq_dec cyc 0) as [E|E].
  - rewrite E, Z.mod_0_r.
    replace (Z.rem (l + normalize_delta 0 (T - l)) 0) with (l + normalize_delta 0 (T - l))
      by (destruct (l + normalize_delta 0 (T - l)); reflexivity).
    unfold normalize_delta.
    destruct (_ <? _); [|destruct (_ <? _)]; lia.
  - rewrite <- Zminus_mod_idemp_l, rem_mod_eq by exact E.
    rewrite Zminus_mod_idemp_l.
    replace (l + normalize_delta cyc (T - l) - T) with (normalize_delta cyc (T - l) + (l - T))
      by ring.
    rewrite <- Zplus_mod_idemp_l, normalize_delta_mod, Zplus_mod_idemp_l.
    replace (T - l + (l - T)) with 0 by ring. apply Z.mod_0_l. exact E.
Qed.

(** X9: for an hour [0 <= tm_hour < 2^32] and a minute [0 <= tm_min <= 59],
    the time [UpdateClock] works with is [(tm_hour mod 12) * 60 + tm_min],
    a minute of the 12-hour cycle in [0, 720): 13:05 and 01:05 are the same
    time. *)
Theorem time_in_minutes_12h (h mi : Z) :
  0 <= h < 2 ^ 32 -> 0 <= mi <= 59 ->
  time_in_minutes (at_time h mi) = h mod 12 * 60 + mi
  /\ 0 <= time_in_minutes (at_time h mi) < MINUTES_PER_CYCLE.
Proof.
  intros Hh Hm. rewrite time_in_minutes_formula by (cbn [tm_hour tm_min at_time]; lia). cbn [tm_hour tm_min at_time].
  split; [reflexivity|]. pose proof (Z.mod_pos_bound h 12 ltac:(lia)).
  unfold MINUTES_PER_CYCLE, MINUTES_PER_HOUR, HOURS_PER_CYCLE. lia.
Qed.

(** X10: while [m_LastStepperPos] is within [0, m_StepsPerCycle), an
    [UpdateClock] call for a valid time issues at most one [Step] call, and
    that call moves at most half a cycle.  Stated for a cycle small enough that
    [newTimeInMinutes * m_StepsPerCycle] does not overflow. *)
Theorem UpdateClock_in_range_short_move (bc : board_cfg) (mc : mech_cfg) (t : tm) (m : mech) :
  0 < m_StepsPerCycle mc -> MINUTES_PER_CYCLE * m_StepsPerCycle mc < 2 ^ 31 ->
  0 <= m_LastStepperPos m < m_StepsPerCycle mc ->
  0 <= tm_hour t < 2 ^ 32 -> 0 <= tm_min t <= 59 ->
  step_calls (UpdateClock bc mc t m) = step_calls m
  \/ exists d, step_calls (UpdateClock bc mc t m) = (d, StepAuto) :: step_calls m
         /\ Z.abs d <= Z.quot (m_StepsPerCycle mc) 2.
Proof.
  intros Hc _ Hl Hh Hm. unfold UpdateClock. destruct (negb _); [right|left; reflexivity].
  eexists. split; [reflexivity|].
  apply normalize_delta_bound; [exact Hc | exact Hl|].
  apply motor_target_range; [exact Hc|].
  rewrite time_in_minutes_formula by assumption.
  pose proof (Z.mod_pos_bound (tm_hour t) 12 ltac:(lia)).
  unfold MINUTES_PER_CYCLE, MINUTES_PER_HOUR, HOURS_PER_CYCLE. lia.
Qed.

(** X11: when [Home()] succeeds, the shaft stops on the clockwise edge of the
    sensor zone: the sensor reads active at the final position and inactive
    one step counter-clockwise of it, whatever the sensor pattern. *)
Theorem Home_success_on_edge (bc : board_cfg) (mc : mech_cfg) (home_high : Z -> bool)
    (m : mech) :
  fst (Home bc mc home_high m) = StatusSuccess ->
  home_active bc home_high (motor_pos (board_st (snd (Home bc mc home_high m)))) = true
  /\ home_active bc home_high (motor_pos (board_st (snd (Home bc mc home_high m))) - 1)
     = false.
Proof.
  unfold Home.
  destruct (home_loop _ _ false STEP_CW StepFast _ _ 0 m) as [i1 m1].
  destruct (home_budget mc <=? i1); [discriminate|].
  set (H := m_StepsPerHour mc).
  destruct (Z.le_gt_cases 0 H) as [HH|HH].
  2: { replace (Z.to_nat H) with 0%nat by lia. cbn [home_loop].
       replace (H <=? 0) with true by (symmetry; apply Z.leb_le; lia). discriminate. }
  destruct (home_loop_spec bc home_high true STEP_CCW StepFast H (Z.to_nat H) 0 m1)
    as (_ & P2 & _ & Out2 & _); [lia | lia |].
  destruct (home_loop _ _ true STEP_CCW StepFast _ _ 0 m1) as [i2 m2].
  cbn [fst snd] in P2, Out2.
  destruct (Z.leb_spec H i2) as [|L2]; [discriminate|].
  destruct (home_loop_spec bc home_high false STEP_CW StepSlow H (Z.to_nat H) 0 m2)
    as (B3 & P3 & In3 & Out3 & _); [lia | lia |].
  destruct (home_loop _ _ false STEP_CW StepSlow _ _ 0 m2) as [i3 m3].
  cbn [fst snd] in B3, P3, In3, Out3.
  destruct (Z.leb_spec H i3) as [|L3]; [discriminate|].
  intros _. cbn [snd set_position board_st].
  specialize (Out2 L2). specialize (Out3 L3).
  rewrite <- P2 in Out2. unfold STEP_CW in *.
  assert (Hi3 : 0 < i3).
  { destruct (Z.eq_dec i3 0) as [E|E]; [|lia]. exfalso. rewrite E in Out3.
    replace (motor_pos (board_st m2) + 1 * (0 - 0)) with (motor_pos (board_st m2))
      in Out3 by ring.
    destruct (home_active bc home_high (motor_pos (board_st m2))); auto. }
  rewrite P3. split.
  - destruct (home_active bc home_high (motor_pos (board_st m2) + 1 * (i3 - 0)));
      [reflexivity | contradiction].
  - rewrite <- (In3 (i3 - 1)) by lia. f_equal. ring.
Qed.

(** X12: [Home()] only ever moves the shaft in single steps: every [Step]
    call it makes is [Step(STEP_CW, StepFast)], [Step(STEP_CCW, StepFast)] or
    [Step(STEP_CW, StepSlow)], and it makes at most [MAX_STEPS + 2 *
    m_StepsPerHour] of them, whatever the sensor does. *)
Theorem Home_motion_bound (bc : board_cfg) (mc : mech_cfg) (home_high : Z -> bool)
    (m : mech) :
  exists l, step_calls (snd (Home bc mc home_high m)) = l ++ step_calls m
  /\ Forall (fun call => call = (STEP_CW, StepFast) \/ call = (STEP_CCW, StepFast)
                         \/ call = (STEP_CW, StepSlow)) l
  /\ Z.of_nat (length l) <= home_budget mc + 2 * Z.max 0 (m_StepsPerHour mc).
Proof.
  assert (HB : 0 <= home_budget mc) by (apply Z.mod_pos_bound; lia).
  assert (Hrep : forall x n, (x = (STEP_CW, StepFast) \/ x = (STEP_CCW, StepFast)
                              \/ x = (STEP_CW, StepSlow)) ->
            Forall (fun call => call = (STEP_CW, StepFast) \/ call = (STEP_CCW, StepFast)
                                \/ call = (STEP_CW, StepSlow)) (repeat x n)).
  { intros x n Hx. apply Forall_forall. intros y Hy. apply repeat_spec in Hy. subst y. exact Hx. }
  unfold Home.
  destruct (home_loop_calls bc home_high false STEP_CW StepFast (home_budget mc)
              (Z.to_nat (home_budget mc)) 0 m) as (n1 & N1 & C1).
  destruct (home_loop _ _ false STEP_CW StepFast _ _ 0 m) as [i1 m1].
  cbn [snd] in C1.
  destruct (home_budget mc <=? i1).
  { exists (repeat (STEP_CW, StepFast) n1). cbn [snd]. split; [exact C1|].
    split; [apply Hrep; auto|]. rewrite repeat_length. lia. }
  destruct (home_loop_calls bc home_high true STEP_CCW StepFast (m_StepsPerHour mc)
              (Z.to_nat (m_StepsPerHour mc)) 0 m1) as (n2 & N2 & C2).
  destruct (home_loop _ _ true STEP_CCW StepFast _ _ 0 m1) as [i2 m2].
  cbn [snd] in C2.
  destruct (m_StepsPerHour mc <=? i2).
  { exists (repeat (STEP_CCW, StepFast) n2 ++ repeat (STEP_CW, StepFast) n1). cbn [snd].
    split; [rewrite C2, C1, app_assoc; reflexivity|].
    split; [apply Forall_app; split; apply Hrep; auto|].
    rewrite length_app, !repeat_length. lia. }
  destruct (home_loop_calls bc home_high false STEP_CW StepSlow (m_StepsPerHour mc)
              (Z.to_nat (m_StepsPerHour mc)) 0 m2) as (n3 & N3 & C3).
  destruct (home_loop _ _ false STEP_CW StepSlow _ _ 0 m2) as [i3 m3].
  cbn [snd] in C3.
  exists (repeat (STEP_CW, StepSlow) n3 ++ repeat (STEP_CCW, StepFast) n2
          ++ repeat (STEP_CW, StepFast) n1).
  assert (Hl : Z.of_nat (length (repeat (STEP_CW, StepSlow) n3 ++ repeat (STEP_CCW, StepFast) n2
                                  ++ repeat (STEP_CW, StepFast) n1))
               <= home_budget mc + 2 * Z.max 0 (m_StepsPerHour mc))
    by (rewrite !length_app, !repeat_length; lia).
  assert (Hf : Forall (fun call => call = (STEP_CW, StepFast) \/ call = (STEP_CCW, StepFast)
                                   \/ call = (STEP_CW, StepSlow))
                 (repeat (STEP_CW, StepSlow) n3 ++ repeat (STEP_CCW, StepFast) n2
                  ++ repeat (STEP_CW, StepFast) n1))
    by (apply Forall_app; split; [|apply Forall_app; split]; apply Hrep; auto).
  assert (Hc : step_calls m3 = (repeat (STEP_CW, StepSlow) n3 ++ repeat (STEP_CCW, StepFast) n2
                                ++ repeat (STEP_CW, StepFast) n1) ++ step_calls m)
    by (rewrite C3, C2, C1, !app_assoc; reflexivity).
  destruct (m_StepsPerHour mc <=? i3); cbn [snd set_position step_calls];
    (split; [exact Hc | split; assumption]).
Qed.

(** X13: when the step count per revolution [s = fullStepsPerRev * (2 if half
    stepping, else 1)] is non-negative and [16 * s] fits in an [int32_t], the
    constructor sets [m_StepsPerCycle = 16 * s] and [m_StepsPerHour =
    floor(4 * s / 3)]; so twelve hours of [m_StepsPerHour] fall short of the
    cycle by [4 * ((4 * s) mod 3)] steps (0, 4 or 8). *)
Theorem make_mechanics_cycle_vs_hours (rsp fsp : Z) (rev half inv : bool) :
  0 <= fsp * (if half then 2 else 1) ->
  16 * (fsp * (if half then 2 else 1)) < 2 ^ 31 ->
  m_StepsPerCycle (snd (make_mechanics rsp fsp rev half inv))
    = 16 * (fsp * (if half then 2 else 1))
  /\ m_StepsPerHour (snd (make_mechanics rsp fsp rev half inv))
    = 4 * (fsp * (if half then 2 else 1)) / 3
  /\ m_StepsPerCycle (snd (make_mechanics rsp fsp rev half inv))
    = 12 * m_StepsPerHour (snd (make_mechanics rsp fsp rev half inv))
      + 4 * ((4 * (fsp * (if half then 2 else 1))) mod 3).
Proof.
  intros H0 H1. cbn [make_mechanics snd m_StepsPerCycle m_StepsPerHour].
  set (s := fsp * (if half then 2 else 1)) in *.
  change GEAR_RATIO with 4. change (HOURS_PER_CYCLE / HOURS_PER_REV) with 4.
  change HOURS_PER_REV with 3.
  unfold to_i32, u32.
  rewrite (Z.mod_small s) by lia. rewrite (Z.mod_small (s * 4)) by lia.
  rewrite !(Z.mod_small (s * 4 * 4)) by lia.
  replace (s * 4 * 4 <? 2 ^ 31) with true by (symmetry; apply Z.ltb_lt; lia).
  pose proof (Z.div_mod (4 * s) 3 ltac:(lia)).
  replace (s * 4) with (4 * s) by ring.
  split; [ring|]. split; [reflexivity|]. lia.
Qed.

(** ** Witnesses for the further properties *)

Lemma Step_phase_follows_steps_witness :
  m_CurrentStepperPhase (Step (make_board 8 2048 false true true) (-3) StepAuto (board_at 0)) =
    (m_CurrentStepperPhase (board_at 0) + -3) mod 8
  /\ motor_pos (Step (make_board 8 2048 false true true) (-3) StepAuto (board_at 0))
     = motor_pos (board_at 0) + -3.
Proof.
  apply (Step_phase_follows_steps 8 2048 false true true (-3) StepAuto (board_at 0)).
  cbn. lia.
Defined.

Lemma Step_sequence_keeps_phase_in_sync_witness :
  m_CurrentStepperPhase (run_steps (make_board 8 2048 false true true)
                           [(5, StepFast); (-7, StepSlow); (2, StepAuto)] (board_init 0)) =
  motor_pos (run_steps (make_board 8 2048 false true true)
               [(5, StepFast); (-7, StepSlow); (2, StepAuto)] (board_init 0)) mod 8.
Proof.
  apply (Step_sequence_keeps_phase_in_sync 8 2048 false true true
           [(5, StepFast); (-7, StepSlow); (2, StepAuto)] (board_init 0)).
  reflexivity.
Defined.

Lemma UpdateClock_tracks_target_witness :
  (m_LastStepperPos (UpdateClock (fst geneva_default) (snd geneva_default) (at_time 11 59)
                       homed_state)
   - motor_target (snd geneva_default)
       (m_LastMinutes (UpdateClock (fst geneva_default) (snd geneva_default) (at_time 11 59)
                         homed_state))) mod m_StepsPerCycle (snd geneva_default) = 0.
Proof.
  apply (UpdateClock_tracks_target (fst geneva_default) (snd geneva_default) (at_time 11 59)
           homed_state).
  - apply Z.ltb_lt. vm_compute. reflexivity.
  - apply Z.ltb_lt. vm_compute. reflexivity.
  - split; [apply Z.leb_le | apply Z.ltb_lt]; vm_compute; reflexivity.
  - split; apply Z.leb_le; vm_compute; reflexivity.
  - vm_compute. reflexivity.
Defined.

Lemma time_in_minutes_12h_witness :
  time_in_minutes (at_time 13 5) = 13 mod 12 * 60 + 5
  /\ 0 <= time_in_minutes (at_time 13 5) < MINUTES_PER_CYCLE.
Proof.
  apply (time_in_minutes_12h 13 5); split;
    [apply Z.leb_le | apply Z.ltb_lt | apply Z.leb_le | apply Z.leb_le];
    vm_compute; reflexivity.
Defined.

Lemma UpdateClock_in_range_short_move_witness :
  step_calls (UpdateClock (fst geneva_default) (snd geneva_default) (at_time 11 59)
                homed_state) = step_calls homed_state
  \/ exists d, step_calls (UpdateClock (fst geneva_default) (snd geneva_default)
                             (at_time 11 59) homed_state) = (d, StepAuto) :: step_calls homed_state
         /\ Z.abs d <= Z.quot (m_StepsPerCycle (snd geneva_default)) 2.
Proof.
  apply (UpdateClock_in_range_short_move (fst geneva_default) (snd geneva_default)
           (at_time 11 59) homed_state).
  - apply Z.ltb_lt. vm_compute. reflexivity.
  - apply Z.ltb_lt. vm_compute. reflexivity.
  - split; [apply Z.leb_le | apply Z.ltb_lt]; vm_compute; reflexivity.
  - split; [apply Z.leb_le | apply Z.ltb_lt]; vm_compute; reflexivity.
  - split; apply Z.leb_le; vm_compute; reflexivity.
Defined.

Lemma Home_success_on_edge_witness :
  home_active (fst geneva_default) (switch_window 0 600 65536)
    (motor_pos (board_st (snd (Home (fst geneva_default) (snd geneva_default)
                                 (switch_window 0 600 65536) (mech_init (board_at 65000))))))
    = true
  /\ home_active (fst geneva_default) (switch_window 0 600 65536)
       (motor_pos (board_st (snd (Home (fst geneva_default) (snd geneva_default)
                                    (switch_window 0 600 65536)
                                    (mech_init (board_at 65000))))) - 1) = false.
Proof.
  apply (Home_success_on_edge (fst geneva_default) (snd geneva_default)
           (switch_window 0 600 65536) (mech_init (board_at 65000))).
  vm_compute. reflexivity.
Defined.

Lemma make_mechanics_cycle_vs_hours_witness :
  m_StepsPerCycle (snd (make_mechanics 8 2048 false false true)) = 16 * (2048 * 1)
  /\ m_StepsPerHour (snd (make_mechanics 8 2048 false false true)) = 4 * (2048 * 1) / 3
  /\ m_StepsPerCycle (snd (make_mechanics 8 2048 false false true))
     = 12 * m_StepsPerHour (snd (make_mechanics 8 2048 false false true))
       + 4 * ((4 * (2048 * 1)) mod 3).
Proof.
  apply (make_mechanics_cycle_vs_hours 8 2048 false false true);
    [apply Z.leb_le | apply Z.ltb_lt]; vm_compute; reflexivity.
Defined.
